(** * QG_Crusher: the identity-combination search of [quantum_rules.py]

    A shallow embedding of [check_identity] and of the module-level gate
    matrices it reads, followed by the properties of the search.

    Numbers.  numpy stores the gates as int64 ([I], [X], [Z]), float64 ([H])
    and complex128 ([Y]) arrays and promotes mixed operands to the wider
    dtype.  Every integer that occurs is one of -1, 0, 1 (or a short sum of
    products of them), which binary64 holds exactly, and a float64 operand
    is a complex128 operand whose imaginary part is zero; the embedding
    therefore carries every entry as a pair of binary64 numbers, computed
    with the kernel's IEEE 754 primitives.  The two readings can differ in
    the sign of a zero only, which neither [==] nor [round] observes. *)

From Stdlib Require Import PrimFloat List Arith NArith Lia Bool Sorted.
Import ListNotations.

(** ** The part of numpy the script uses *)

Module Numpy.

Local Open Scope float_scope.

(** complex128: a pair of binary64 numbers. *)
Record complex : Set := Cx { re : float; im : float }.

Definition of_int (x : float) : complex := Cx x 0.

Definition cadd (a b : complex) : complex :=
  Cx (re a + re b) (im a + im b).

Definition cmul (a b : complex) : complex :=
  Cx (re a * re b - im a * im b) (re a * im b + im a * re b).

(** IEEE equality on both parts ([-0 == 0], [nan != nan]). *)
Definition ceq (a b : complex) : bool :=
  PrimFloat.eqb (re a) (re b) && PrimFloat.eqb (im a) (im b).

(** 2^52: from here on every binary64 number is an integer. *)
Definition two52 : float := 4503599627370496.

(** Round to the nearest integer, ties to even, the rule of numpy's
    [round] with no decimals: adding and removing 2^52 (with the sign of
    the argument) leaves the integer that round-to-nearest-even picks. *)
Definition rint (x : float) : float :=
  if PrimFloat.ltb (PrimFloat.abs x) two52 then
    if PrimFloat.ltb x 0 then (x - two52) + two52 else (x + two52) - two52
  else x.

(** Real and imaginary part are rounded independently. *)
Definition cround (a : complex) : complex := Cx (rint (re a)) (rint (im a)).

(** A 2x2 array, row by row. *)
Record ndarray : Set :=
  Arr { a00 : complex; a01 : complex; a10 : complex; a11 : complex }.

(** [np.dot] on two 2x2 arrays: the matrix product, each entry the sum
    of its two products, every operation rounded on its own (no fused
    multiply-add). *)
Definition dot (a b : ndarray) : ndarray :=
  Arr (cadd (cmul (a00 a) (a00 b)) (cmul (a01 a) (a10 b)))
      (cadd (cmul (a00 a) (a01 b)) (cmul (a01 a) (a11 b)))
      (cadd (cmul (a10 a) (a00 b)) (cmul (a11 a) (a10 b)))
      (cadd (cmul (a10 a) (a01 b)) (cmul (a11 a) (a11 b))).

(** [a.round()] *)
Definition round (a : ndarray) : ndarray :=
  Arr (cround (a00 a)) (cround (a01 a)) (cround (a10 a)) (cround (a11 a)).

(** [(a == b).all()] *)
Definition all_eq (a b : ndarray) : bool :=
  ceq (a00 a) (a00 b) && ceq (a01 a) (a01 b) &&
  ceq (a10 a) (a10 b) && ceq (a11 a) (a11 b).

End Numpy.

Import Numpy.

(** ** The module-level matrices, with their initial values *)

Module Gates.

Local Open Scope float_scope.

Definition I : ndarray :=
  Arr (of_int 1) (of_int 0)
      (of_int 0) (of_int 1).

Definition rootX : ndarray :=
  Arr (Cx 0.5 0.5) (Cx 0.5 (-0.5))
      (Cx 0.5 (-0.5)) (Cx 0.5 0.5).

Definition H : ndarray :=
  Arr (Cx (1 / PrimFloat.sqrt 2) 0) (Cx (1 / PrimFloat.sqrt 2) 0)
      (Cx (1 / PrimFloat.sqrt 2) 0) (Cx (-1 / PrimFloat.sqrt 2) 0).

(** [math.sin(math.pi/2)] is 1.0 in binary64. *)
Definition S : ndarray :=
  Arr (of_int 1) (of_int 0)
      (of_int 0) (Cx 0 1).

Definition X : ndarray :=
  Arr (of_int 0) (of_int 1)
      (of_int 1) (of_int 0).

(** [-1.j] is the complex number with both parts negated: (-0.0, -1.0). *)
Definition Y : ndarray :=
  Arr (of_int 0) (Cx (-0) (-1))
      (Cx 0 1) (of_int 0).

Definition Z : ndarray :=
  Arr (of_int 1) (of_int 0)
      (of_int 0) (of_int (-1)).

End Gates.

(** The module namespace: the seven global names of [quantum_rules.py]. *)
Record globals : Set := Globals {
  var_I : ndarray;
  var_rootX : ndarray;
  var_H : ndarray;
  var_S : ndarray;
  var_X : ndarray;
  var_Y : ndarray;
  var_Z : ndarray
}.

(** The namespace once the module body has run. *)
Definition module_globals : globals :=
  Globals Gates.I Gates.rootX Gates.H Gates.S Gates.X Gates.Y Gates.Z.

(** ** Computations over the module namespace that may raise *)

(** [None] is an uncaught [IndexError]. *)
Definition M (A : Type) : Type := globals -> option (A * globals).

Definition ret {A} (a : A) : M A := fun g => Some (a, g).

Definition bind {A B} (m : M A) (k : A -> M B) : M B :=
  fun g => match m g with
           | Some (a, g') => k a g'
           | None => None
           end.

Definition raise {A} : M A := fun _ => None.

Declare Scope py_scope.
Delimit Scope py_scope with py.
Notation "x <- m ;; k" := (bind m (fun x => k))
  (at level 61, m at next level, right associativity) : py_scope.
Local Open Scope py_scope.

(** Reading a global name. *)
Definition load (name : globals -> ndarray) : M ndarray :=
  fun g => Some (name g, g).

(** [l[i]] for a list and a non-negative index. *)
Definition getitem {A} (l : list A) (i : nat) : M A :=
  match nth_error l i with
  | Some x => ret x
  | None => raise
  end.

(** [np.dot(a, b)]: both arguments are evaluated, left to right, then
    multiplied. *)
Definition np_dot (a b : M ndarray) : M ndarray :=
  x <- a ;; y <- b ;; ret (dot x y).

(** [range(lo, hi)] *)
Definition range (lo hi : nat) : list nat := seq lo (hi - lo).

(** [for i in xs: body], threading the local list the body appends to. *)
Fixpoint for_in {A} (xs : list nat) (body : nat -> A -> M A) (acc : A) : M A :=
  match xs with
  | [] => ret acc
  | i :: xs' => acc' <- body i acc ;; for_in xs' body acc'
  end.

(** [final_identity.append(t)] *)
Definition append {A} (l : list A) (t : A) : list A := l ++ [t].

(** ** [check_identity] *)

Section Tests.

(** The list [d] of the function. *)
Variable d : list ndarray.

(** The products of the six loop nests, as the source nests its calls
    of [np.dot]. *)
Definition product3 (i j k : nat) : M ndarray :=
  np_dot (np_dot (getitem d i) (getitem d j)) (getitem d k).

Definition product4 (i j k l : nat) : M ndarray :=
  np_dot (np_dot (np_dot (getitem d i) (getitem d j)) (getitem d k))
         (getitem d l).

Definition product5 (i j k l m : nat) : M ndarray :=
  np_dot (np_dot (np_dot (np_dot (getitem d i) (getitem d j)) (getitem d k))
                 (getitem d l)) (getitem d m).

Definition product6 (i j k l m n : nat) : M ndarray :=
  np_dot (np_dot (np_dot (np_dot (np_dot (getitem d i) (getitem d j))
                                 (getitem d k)) (getitem d l)) (getitem d m))
         (getitem d n).

Definition product7 (i j k l m n o : nat) : M ndarray :=
  np_dot (np_dot (np_dot (np_dot (np_dot (np_dot (getitem d i) (getitem d j))
                                         (getitem d k)) (getitem d l))
                         (getitem d m)) (getitem d n)) (getitem d o).

Definition product8 (i j k l m n o p : nat) : M ndarray :=
  np_dot (np_dot (np_dot (np_dot (np_dot (np_dot (np_dot
    (getitem d i) (getitem d j)) (getitem d k)) (getitem d l))
    (getitem d m)) (getitem d n)) (getitem d o)) (getitem d p).

End Tests.

(** [(e.round() == I).all()], the condition of the nests of lengths 8 to 4. *)
Definition round_is_I (e : M ndarray) : M bool :=
  x <- e ;; vI <- load var_I ;; ret (all_eq (round x) vI).

(** [(e == I).all()], the condition of the nest of length 3. *)
Definition is_I (e : M ndarray) : M bool :=
  x <- e ;; vI <- load var_I ;; ret (all_eq x vI).

(** [if c: final_identity.append(t)] *)
Definition append_if (c : M bool) (t : list nat) (final_identity : list (list nat))
  : M (list (list nat)) :=
  b <- c ;; if b then ret (append final_identity t) else ret final_identity.

Definition check_identity : M (list (list nat)) :=
  vI <- load var_I ;; vH <- load var_H ;; vX <- load var_X ;;
  vY <- load var_Y ;; vZ <- load var_Z ;;
  let d := [vI; vH; vX; vY; vZ] in
  let final_identity := [] in
  final_identity <-
    for_in (range 0 5) (fun i =>
    for_in (range 0 5) (fun j =>
    for_in (range 0 5) (fun k =>
    for_in (range 0 5) (fun l =>
    for_in (range 0 5) (fun m =>
    for_in (range 0 5) (fun n =>
    for_in (range 0 5) (fun o =>
    for_in (range 0 5) (fun p =>
      append_if (round_is_I (product8 d i j k l m n o p))
                [i; j; k; l; m; n; o; p])))))))) final_identity ;;
  final_identity <-
    for_in (range 0 5) (fun i =>
    for_in (range 0 5) (fun j =>
    for_in (range 0 5) (fun k =>
    for_in (range 0 5) (fun l =>
    for_in (range 0 5) (fun m =>
    for_in (range 0 5) (fun n =>
    for_in (range 0 5) (fun o =>
      append_if (round_is_I (product7 d i j k l m n o))
                [i; j; k; l; m; n; o]))))))) final_identity ;;
  final_identity <-
    for_in (range 0 5) (fun i =>
    for_in (range 0 5) (fun j =>
    for_in (range 0 5) (fun k =>
    for_in (range 0 5) (fun l =>
    for_in (range 0 5) (fun m =>
    for_in (range 0 5) (fun n =>
      append_if (round_is_I (product6 d i j k l m n))
                [i; j; k; l; m; n])))))) final_identity ;;
  final_identity <-
    for_in (range 0 5) (fun i =>
    for_in (range 0 5) (fun j =>
    for_in (range 0 5) (fun k =>
    for_in (range 0 5) (fun l =>
    for_in (range 0 5) (fun m =>
      append_if (round_is_I (product5 d i j k l m))
                [i; j; k; l; m]))))) final_identity ;;
  final_identity <-
    for_in (range 0 5) (fun i =>
    for_in (range 0 5) (fun j =>
    for_in (range 0 5) (fun k =>
    for_in (range 0 5) (fun l =>
      append_if (round_is_I (product4 d i j k l))
                [i; j; k; l])))) final_identity ;;
  final_identity <-
    for_in (range 0 5) (fun i =>
    for_in (range 0 5) (fun j =>
    for_in (range 0 5) (fun k =>
      append_if (is_I (product3 d i j k))
                [i; j; k]))) final_identity ;;
  ret final_identity.

(** ** The search as the specification words it *)

(** The fixed gate list, indexed 0..4: Identity, Hadamard, Pauli-X, Pauli-Y,
    Pauli-Z, as the namespace [g] binds them. *)
Definition gate_list (g : globals) : list ndarray :=
  [var_I g; var_H g; var_X g; var_Y g; var_Z g].

Definition gate (g : globals) (i : nat) : ndarray :=
  nth i (gate_list g) (var_I g).

(** gate[s0] . gate[s1] . ... . gate[sL-1], multiplied from the left. *)
Definition ordered_product (g : globals) (s : list nat) : ndarray :=
  match s with
  | [] => var_I g
  | i :: s' => fold_left (fun acc j => dot acc (gate g j)) s' (gate g i)
  end.

(** Round every entry, then compare with the identity entrywise. *)
Definition qualifies (g : globals) (s : list nat) : bool :=
  all_eq (round (ordered_product g s)) (var_I g).

(** Compare with the identity entrywise, without rounding. *)
Definition qualifies_exactly (g : globals) (s : list nat) : bool :=
  all_eq (ordered_product g s) (var_I g).

(** An index of the gate list. *)
Definition index (i : nat) : Prop := i < 5.

(** All index tuples that extend [pre] by [n] more indices in 0..4, in
    the order of [n] nested loops, keeping those that [accept] takes. *)
Fixpoint search (accept : list nat -> bool) (n : nat) (pre : list nat)
  : list (list nat) :=
  match n with
  | 0 => if accept pre then [pre] else []
  | S n' => flat_map (fun i => search accept n' (pre ++ [i])) (range 0 5)
  end.

(** The 5^n index tuples of length [n]. *)
Definition tuples (n : nat) : list (list nat) := search (fun _ => true) n [].

(** Lexicographic order of index tuples (Python's order on lists). *)
Fixpoint lex_lt (a b : list nat) : Prop :=
  match a, b with
  | _, [] => False
  | [], _ :: _ => True
  | x :: a', y :: b' => x < y \/ (x = y /\ lex_lt a' b')
  end.

(** Shorter tuples first, tuples of one length in lexicographic order. *)
Definition length_ascending (a b : list nat) : Prop :=
  length a < length b \/ (length a = length b /\ lex_lt a b).

(** Longer tuples first, tuples of one length in lexicographic order. *)
Definition length_descending (a b : list nat) : Prop :=
  length b < length a \/ (length a = length b /\ lex_lt a b).

(** The result of the six loop nests, nest by nest. *)
Definition result_of (g : globals) : list (list nat) :=
  search (qualifies g) 8 [] ++ search (qualifies g) 7 [] ++
  search (qualifies g) 6 [] ++ search (qualifies g) 5 [] ++
  search (qualifies g) 4 [] ++ search (qualifies_exactly g) 3 [].

(** Two namespaces that bind the five gates of [d] alike. *)
Definition same_gates (g g' : globals) : Prop :=
  var_I g = var_I g' /\ var_H g = var_H g' /\ var_X g = var_X g' /\
  var_Y g = var_Y g' /\ var_Z g = var_Z g'.

(** Two calls in a row, nothing in between. *)
Definition call_twice : M (list (list nat) * list (list nat)) :=
  r1 <- check_identity ;; r2 <- check_identity ;; ret (r1, r2).

(** ** The Product of a Sequence, in the words of the specification *)

(** Entry (i,j) of a 2x2 matrix, rows and columns counted from 0. *)
Definition entry (m : ndarray) (i j : nat) : complex :=
  match i, j with
  | 0, 0 => a00 m
  | 0, _ => a01 m
  | _, 0 => a10 m
  | _, _ => a11 m
  end.

(** Complex arithmetic on binary64 pairs:
    (a+bi) + (c+di) = (a+c) + (b+d)i and
    (a+bi) (c+di) = (ac - bd) + (ad + bc)i. *)
Definition complex_plus (x y : complex) : complex :=
  Cx (PrimFloat.add (re x) (re y)) (PrimFloat.add (im x) (im y)).

Definition complex_times (x y : complex) : complex :=
  Cx (PrimFloat.sub (PrimFloat.mul (re x) (re y))
                    (PrimFloat.mul (im x) (im y)))
     (PrimFloat.add (PrimFloat.mul (re x) (im y))
                    (PrimFloat.mul (im x) (re y))).

(** Standard matrix multiplication: entry (i,j) of a.b is the sum over k
    of a[i][k] b[k][j]. *)
Definition matrix_product (a b : ndarray) : ndarray :=
  let e i j :=
    fold_left (fun acc k => complex_plus acc
                              (complex_times (entry a i k) (entry b k j)))
              [1] (complex_times (entry a i 0) (entry b 0 j)) in
  Arr (e 0 0) (e 0 1) (e 1 0) (e 1 1).

(** The fixed gate list, indexed 0..4; no other index names a gate. *)
Definition gate_at (g : globals) (i : nat) : option ndarray :=
  match i with
  | 0 => Some (var_I g)
  | 1 => Some (var_H g)
  | 2 => Some (var_X g)
  | 3 => Some (var_Y g)
  | 4 => Some (var_Z g)
  | _ => None
  end.

(** [acc . gate[s0] . gate[s1] . ...], multiplied from the left. *)
Fixpoint multiply_on (g : globals) (acc : ndarray) (s : list nat)
  : option ndarray :=
  match s with
  | [] => Some acc
  | i :: s' =>
      match gate_at g i with
      | Some m => multiply_on g (matrix_product acc m) s'
      | None => None
      end
  end.

(** Product = gate[s0] . gate[s1] . ... . gate[sL-1]. *)
Definition Product (g : globals) (s : list nat) : option ndarray :=
  match s with
  | [] => None
  | i :: s' =>
      match gate_at g i with
      | Some m => multiply_on g m s'
      | None => None
      end
  end.

(** The expression the nest of the tuple's length evaluates for it. *)
Definition tested_product (d : list ndarray) (s : list nat) : M ndarray :=
  match s with
  | [i; j; k] => product3 d i j k
  | [i; j; k; l] => product4 d i j k l
  | [i; j; k; l; m] => product5 d i j k l m
  | [i; j; k; l; m; n] => product6 d i j k l m n
  | [i; j; k; l; m; n; o] => product7 d i j k l m n o
  | [i; j; k; l; m; n; o; p] => product8 d i j k l m n o p
  | _ => raise
  end.

(** ** Vocabulary for further properties of the result *)

(** The condition the nest of the tuple's own length applies: the nest of
    length 3 compares as is, the others round first. *)
Definition nest_test (g : globals) (s : list nat) : bool :=
  if length s =? 3 then qualifies_exactly g s else qualifies g s.

(** The tuple with its first index moved to the end. *)
Definition rotate (s : list nat) : list nat :=
  match s with
  | [] => []
  | i :: s' => s' ++ [i]
  end.

(** How often the Hadamard gate (index 1) occurs in a tuple. *)
Definition hadamards (s : list nat) : nat := count_occ Nat.eq_dec s 1.

(** What is checked of every returned tuple in one pass over the result:
    the parity of its Hadamard gates, and the conditions of its reversal,
    of its rotation and of its two extensions by the Identity gate. *)
Definition closure_check (g : globals) (s : list nat) : bool :=
  Nat.even (hadamards s) &&
  nest_test g (rev s) && nest_test g (rotate s) &&
  (if length s <? 8 then nest_test g (s ++ [0]) && nest_test g (0 :: s)
   else true).

(** The number of tuples of length [L] in a list, and the number of all
    its tuples, counted in binary. *)
Definition count_length (L : nat) (r : list (list nat)) : N :=
  fold_left (fun c s => if length s =? L then N.succ c else c) r 0%N.

Definition count_all (r : list (list nat)) : N :=
  fold_left (fun c _ => N.succ c) r 0%N.

Definition length_counts (r : list (list nat)) : list N * N :=
  (map (fun L => count_length L r) [3; 4; 5; 6; 7; 8], count_all r).

(** Rounds to the identity, but is not the identity as computed. *)
Definition needs_round (g : globals) (s : list nat) : bool :=
  qualifies g s && negb (qualifies_exactly g s).

(** ** Running the model *)

Lemma in_range (lo hi i : nat) : In i (range lo hi) <-> lo <= i < hi.
Proof. unfold range. rewrite in_seq. lia. Qed.

Lemma getitem_gate (g g' : globals) (i : nat) :
  In i (range 0 5) -> getitem (gate_list g) i g' = Some (gate g i, g').
Proof.
  rewrite in_range. intros [_ Hi].
  do 5 (destruct i as [|i]; [reflexivity|]). lia.
Qed.

Lemma np_dot_run (a b : M ndarray) (x y : ndarray) (g : globals) :
  a g = Some (x, g) -> b g = Some (y, g) -> np_dot a b g = Some (dot x y, g).
Proof. intros Ha Hb. unfold np_dot, bind. now rewrite Ha, Hb. Qed.

Lemma round_is_I_run (e : M ndarray) (x : ndarray) (g : globals) :
  e g = Some (x, g) -> round_is_I e g = Some (all_eq (round x) (var_I g), g).
Proof. intros He. unfold round_is_I, bind. now rewrite He. Qed.

Lemma is_I_run (e : M ndarray) (x : ndarray) (g : globals) :
  e g = Some (x, g) -> is_I e g = Some (all_eq x (var_I g), g).
Proof. intros He. unfold is_I, bind. now rewrite He. Qed.

Lemma append_if_run (c : M bool) (b : bool) (t : list nat)
      (acc : list (list nat)) (g : globals) :
  c g = Some (b, g) ->
  append_if c t acc g = Some (acc ++ (if b then [t] else []), g).
Proof.
  intros Hc. unfold append_if, bind. rewrite Hc.
  destruct b; cbn; [reflexivity | now rewrite app_nil_r].
Qed.

(** A loop whose body only appends, and leaves the namespace alone,
    appends the bodies' contributions in the order of the iteration. *)
Lemma for_in_collect (A : Type) (xs : list nat)
      (body : nat -> list A -> M (list A)) (f : nat -> list A) (g : globals) :
  (forall i acc, In i xs -> body i acc g = Some (acc ++ f i, g)) ->
  forall acc, for_in xs body acc g = Some (acc ++ flat_map f xs, g).
Proof.
  induction xs as [|x xs IH]; intros Hbody acc; cbn.
  - now rewrite app_nil_r.
  - unfold bind. rewrite Hbody by now left.
    rewrite IH by (intros; apply Hbody; now right).
    now rewrite app_assoc.
Qed.

Ltac run_product :=
  cbn [ordered_product fold_left];
  repeat first [ apply getitem_gate; assumption | apply np_dot_run ].

Section Products.

Variables g : globals.
Let d := gate_list g.
Let ok i := In i (range 0 5).

Lemma product3_run i j k : ok i -> ok j -> ok k ->
  product3 d i j k g = Some (ordered_product g [i; j; k], g).
Proof. intros; unfold product3; run_product. Qed.

Lemma product4_run i j k l : ok i -> ok j -> ok k -> ok l ->
  product4 d i j k l g = Some (ordered_product g [i; j; k; l], g).
Proof. intros; unfold product4; run_product. Qed.

Lemma product5_run i j k l m : ok i -> ok j -> ok k -> ok l -> ok m ->
  product5 d i j k l m g = Some (ordered_product g [i; j; k; l; m], g).
Proof. intros; unfold product5; run_product. Qed.

Lemma product6_run i j k l m n :
  ok i -> ok j -> ok k -> ok l -> ok m -> ok n ->
  product6 d i j k l m n g = Some (ordered_product g [i; j; k; l; m; n], g).
Proof. intros; unfold product6; run_product. Qed.

Lemma product7_run i j k l m n o :
  ok i -> ok j -> ok k -> ok l -> ok m -> ok n -> ok o ->
  product7 d i j k l m n o g
  = Some (ordered_product g [i; j; k; l; m; n; o], g).
Proof. intros; unfold product7; run_product. Qed.

Lemma product8_run i j k l m n o p :
  ok i -> ok j -> ok k -> ok l -> ok m -> ok n -> ok o -> ok p ->
  product8 d i j k l m n o p g
  = Some (ordered_product g [i; j; k; l; m; n; o; p], g).
Proof. intros; unfold product8; run_product. Qed.

End Products.

(** The six loop nests, each run from any list built so far. *)
Section Nests.

Variable g : globals.
Let d := gate_list g.

Ltac run_nest product_run :=
  cbn [search app];
  repeat (apply for_in_collect; intros);
  apply append_if_run;
  first [ apply round_is_I_run | apply is_I_run ];
  apply product_run; assumption.

Lemma nest8_run acc :
  for_in (range 0 5) (fun i =>
  for_in (range 0 5) (fun j =>
  for_in (range 0 5) (fun k =>
  for_in (range 0 5) (fun l =>
  for_in (range 0 5) (fun m =>
  for_in (range 0 5) (fun n =>
  for_in (range 0 5) (fun o =>
  for_in (range 0 5) (fun p =>
    append_if (round_is_I (product8 d i j k l m n o p))
              [i; j; k; l; m; n; o; p])))))))) acc g
  = Some (acc ++ search (qualifies g) 8 [], g).
Proof. run_nest product8_run. Qed.

Lemma nest7_run acc :
  for_in (range 0 5) (fun i =>
  for_in (range 0 5) (fun j =>
  for_in (range 0 5) (fun k =>
  for_in (range 0 5) (fun l =>
  for_in (range 0 5) (fun m =>
  for_in (range 0 5) (fun n =>
  for_in (range 0 5) (fun o =>
    append_if (round_is_I (product7 d i j k l m n o))
              [i; j; k; l; m; n; o]))))))) acc g
  = Some (acc ++ search (qualifies g) 7 [], g).
Proof. run_nest product7_run. Qed.

Lemma nest6_run acc :
  for_in (range 0 5) (fun i =>
  for_in (range 0 5) (fun j =>
  for_in (range 0 5) (fun k =>
  for_in (range 0 5) (fun l =>
  for_in (range 0 5) (fun m =>
  for_in (range 0 5) (fun n =>
    append_if (round_is_I (product6 d i j k l m n))
              [i; j; k; l; m; n])))))) acc g
  = Some (acc ++ search (qualifies g) 6 [], g).
Proof. run_nest product6_run. Qed.

Lemma nest5_run acc :
  for_in (range 0 5) (fun i =>
  for_in (range 0 5) (fun j =>
  for_in (range 0 5) (fun k =>
  for_in (range 0 5) (fun l =>
  for_in (range 0 5) (fun m =>
    append_if (round_is_I (product5 d i j k l m))
              [i; j; k; l; m]))))) acc g
  = Some (acc ++ search (qualifies g) 5 [], g).
Proof. run_nest product5_run. Qed.

Lemma nest4_run acc :
  for_in (range 0 5) (fun i =>
  for_in (range 0 5) (fun j =>
  for_in (range 0 5) (fun k =>
  for_in (range 0 5) (fun l =>
    append_if (round_is_I (product4 d i j k l))
              [i; j; k; l])))) acc g
  = Some (acc ++ search (qualifies g) 4 [], g).
Proof. run_nest product4_run. Qed.

Lemma nest3_run acc :
  for_in (range 0 5) (fun i =>
  for_in (range 0 5) (fun j =>
  for_in (range 0 5) (fun k =>
    append_if (is_I (product3 d i j k))
              [i; j; k]))) acc g
  = Some (acc ++ search (qualifies_exactly g) 3 [], g).
Proof. run_nest product3_run. Qed.

End Nests.

(** The call returns, with the namespace as it found it, the tuples the
    six nests accept, the nest of length 8 first. *)
Lemma check_identity_run (g : globals) :
  check_identity g = Some (result_of g, g).
Proof.
  unfold check_identity, result_of.
  cbv beta iota delta [bind load].
  change [var_I g; var_H g; var_X g; var_Y g; var_Z g] with (gate_list g).
  rewrite nest8_run, nest7_run, nest6_run, nest5_run, nest4_run, nest3_run.
  cbn [app ret]. now rewrite <- !app_assoc.
Qed.

(** ** The enumeration *)

Lemma in_search (accept : list nat -> bool) (n : nat) :
  forall pre s,
    In s (search accept n pre) <->
    exists suf, s = pre ++ suf /\ length suf = n /\ Forall index suf /\
                accept s = true.
Proof.
  induction n as [|n IH]; intros pre s; cbn [search].
  - split.
    + destruct (accept pre) eqn:Ha; [|intros []].
      intros [<-|[]]. exists []. now rewrite app_nil_r.
    + intros (suf & -> & Hlen & _ & Ha).
      destruct suf; [|discriminate]. rewrite app_nil_r in *.
      rewrite Ha. now left.
  - rewrite in_flat_map. split.
    + intros (i & Hi & Hs). apply in_range in Hi.
      apply IH in Hs as (suf & -> & Hlen & Hall & Ha).
      exists (i :: suf). rewrite <- app_assoc in *. cbn in *.
      repeat split; auto. constructor; auto.
      unfold index. lia.
    + intros (suf & -> & Hlen & Hall & Ha).
      destruct suf as [|i suf]; [discriminate|].
      inversion Hall; subst. exists i. split.
      * apply in_range. unfold index in *. lia.
      * apply IH. exists suf. rewrite <- app_assoc. cbn in *.
        repeat split; auto.
Qed.

Lemma in_search_nil (accept : list nat -> bool) (n : nat) (s : list nat) :
  In s (search accept n []) <->
  length s = n /\ Forall index s /\ accept s = true.
Proof.
  rewrite in_search. cbn. split.
  - intros (suf & -> & ?). assumption.
  - intros ?. now exists s.
Qed.

(** [tuples n] is every tuple of length [n] over the indices 0..4. *)
Lemma in_tuples (n : nat) (s : list nat) :
  In s (tuples n) <-> length s = n /\ Forall index s.
Proof. unfold tuples. rewrite in_search_nil. tauto. Qed.

(** *** Order *)

Lemma lex_lt_irrefl (a : list nat) : ~ lex_lt a a.
Proof. induction a as [|x a IH]; cbn; [tauto|]. intros [?|[_ ?]]; [lia|auto]. Qed.

Lemma lex_lt_app (pre a b : list nat) :
  lex_lt (pre ++ a) (pre ++ b) <-> lex_lt a b.
Proof.
  induction pre as [|x pre IH]; cbn; [tauto|].
  rewrite IH. split; [intros [?|[_ ?]]; [lia|assumption] | auto].
Qed.

Section Sorting.

Variables (A : Type) (R : A -> A -> Prop).

Lemma StronglySorted_app (l1 l2 : list A) :
  StronglySorted R l1 -> StronglySorted R l2 ->
  (forall a b, In a l1 -> In b l2 -> R a b) ->
  StronglySorted R (l1 ++ l2).
Proof.
  induction 1 as [|x l1 Hs IH Hx]; intros H2 Hcross; cbn; [assumption|].
  constructor.
  - apply IH; [assumption|]. intros; apply Hcross; [now right|assumption].
  - apply Forall_app. split; [assumption|].
    apply Forall_forall. intros; apply Hcross; [now left|assumption].
Qed.

Lemma StronglySorted_app_cross (l1 l2 : list A) :
  StronglySorted R (l1 ++ l2) ->
  forall a b, In a l1 -> In b l2 -> R a b.
Proof.
  induction l1 as [|x l1 IH]; cbn; intros Hs a b Ha Hb; [destruct Ha|].
  apply StronglySorted_inv in Hs as [Hs Hx]. destruct Ha as [<-|Ha].
  - rewrite Forall_forall in Hx. apply Hx, in_or_app. now right.
  - now apply IH.
Qed.

Lemma StronglySorted_flat_map (f : nat -> list A) (xs : list nat) :
  StronglySorted lt xs ->
  (forall x, In x xs -> StronglySorted R (f x)) ->
  (forall x y a b, x < y -> In a (f x) -> In b (f y) -> R a b) ->
  StronglySorted R (flat_map f xs).
Proof.
  intros Hxs Hf Hcross.
  induction Hxs as [|x xs Hs IH Hx]; cbn; [constructor|].
  apply StronglySorted_app.
  - apply Hf. now left.
  - apply IH. intros; apply Hf; now right.
  - intros a b Ha Hb. apply in_flat_map in Hb as (y & Hy & Hb).
    rewrite Forall_forall in Hx. eapply Hcross; eauto.
Qed.

Lemma StronglySorted_NoDup (l : list A) :
  (forall a, ~ R a a) -> StronglySorted R l -> NoDup l.
Proof.
  intros Hirr. induction 1 as [|x l Hs IH Hx]; constructor; [|assumption].
  intros Hin. rewrite Forall_forall in Hx. exact (Hirr x (Hx x Hin)).
Qed.

End Sorting.

Lemma range_0_5_sorted : StronglySorted lt (range 0 5).
Proof. cbv [range seq Nat.sub]. repeat constructor. Qed.

(** The tuples of one nest come out in lexicographic order. *)
Lemma search_sorted (accept : list nat -> bool) (n : nat) :
  forall pre, StronglySorted lex_lt (search accept n pre).
Proof.
  induction n as [|n IH]; intros pre; cbn [search].
  - destruct (accept pre); repeat constructor.
  - apply StronglySorted_flat_map; [apply range_0_5_sorted | auto |].
    intros x y a b Hxy Ha Hb.
    apply in_search in Ha as (sa & -> & _). apply in_search in Hb as (sb & -> & _).
    rewrite <- !app_assoc. apply lex_lt_app. cbn. now left.
Qed.

Lemma search_NoDup (accept : list nat -> bool) (n : nat) (pre : list nat) :
  NoDup (search accept n pre).
Proof.
  apply StronglySorted_NoDup with (R := lex_lt);
    [apply lex_lt_irrefl | apply search_sorted].
Qed.

Lemma search_length (accept : list nat -> bool) (n : nat) (s : list nat) :
  In s (search accept n []) -> length s = n.
Proof. rewrite in_search_nil. tauto. Qed.

Lemma search_descending (accept : list nat -> bool) (n : nat) :
  StronglySorted length_descending (search accept n []).
Proof.
  pose proof (search_length accept n) as Hlen.
  pose proof (search_sorted accept n []) as Hs.
  induction Hs as [|x l Hs IH Hx]; constructor.
  - apply IH. intros; apply Hlen; now right.
  - rewrite Forall_forall in *. intros y Hy. right. split; [|auto].
    rewrite (Hlen x), (Hlen y); auto; [now right | now left].
Qed.

(** What the call returns: membership, order, repetition. *)
Lemma in_result_of (g : globals) (s : list nat) :
  In s (result_of g) <->
  Forall index s /\
  ((4 <= length s <= 8 /\ qualifies g s = true) \/
   (length s = 3 /\ qualifies_exactly g s = true)).
Proof.
  unfold result_of. rewrite !in_app_iff, !in_search_nil. split.
  - intuition lia.
  - intros (Hall & [[Hlen Hq] | [Hlen Hq]]); [|tauto].
    assert (length s = 8 \/ length s = 7 \/ length s = 6 \/ length s = 5 \/
            length s = 4) as Hcases by lia.
    tauto.
Qed.

Lemma result_of_descending (g : globals) :
  StronglySorted length_descending (result_of g).
Proof.
  unfold result_of.
  repeat (apply StronglySorted_app; [apply search_descending | |
    intros a b Ha Hb; left; apply search_length in Ha;
    rewrite ?in_app_iff in Hb;
    repeat (destruct Hb as [Hb|Hb]; [apply search_length in Hb; lia|]);
    apply search_length in Hb; lia]).
  apply search_descending.
Qed.

Lemma length_descending_irrefl (a : list nat) : ~ length_descending a a.
Proof. intros [?|[_ ?]]; [lia | now apply lex_lt_irrefl in H]. Qed.

Lemma result_of_NoDup (g : globals) : NoDup (result_of g).
Proof.
  apply StronglySorted_NoDup with (R := length_descending);
    [apply length_descending_irrefl | apply result_of_descending].
Qed.

(** Deciding membership of a concrete tuple by evaluating its test. *)
Ltac indices := repeat (constructor; [unfold index; lia|]); constructor.

Ltac member :=
  rewrite in_result_of; split;
  [ indices
  | first [ left; split; [cbn; lia | vm_compute; reflexivity]
          | right; split; [reflexivity | vm_compute; reflexivity] ] ].

Ltac not_member :=
  let Hlen := fresh "Hlen" in
  let Hq := fresh "Hq" in
  rewrite in_result_of; intros (_ & [[Hlen Hq] | [Hlen Hq]]);
  [ first [ cbn in Hlen; lia | vm_compute in Hq; discriminate ]
  | first [ cbn in Hlen; lia | vm_compute in Hq; discriminate ] ].

(** For the nests of lengths 4 to 8 the rule is round, then compare. *)
Lemma round_then_compare_4_to_8 (g : globals) (s : list nat) :
  4 <= length s <= 8 -> Forall index s ->
  (In s (result_of g) <-> qualifies g s = true).
Proof.
  intros Hlen Hall. rewrite in_result_of. split.
  - intros (_ & [[_ Hq] | [H3 _]]); [assumption | lia].
  - intros Hq. split; [assumption | left; now split].
Qed.

(** The nest of length 3 compares without rounding. *)
Lemma compare_unrounded_3 (g : globals) (s : list nat) :
  length s = 3 -> Forall index s ->
  (In s (result_of g) <-> qualifies_exactly g s = true).
Proof.
  intros Hlen Hall. rewrite in_result_of. split.
  - intros (_ & [[H4 _] | [_ Hq]]); [lia | assumption].
  - intros Hq. split; [assumption | right; now split].
Qed.

(** Every tuple a nest accepts is in the result exactly once. *)
Lemma accepted_once (g : globals) (s : list nat) :
  In s (result_of g) ->
  count_occ (list_eq_dec Nat.eq_dec) (result_of g) s = 1.
Proof. apply NoDup_count_occ', result_of_NoDup. Qed.

Lemma search_ext (a b : list nat -> bool) (n : nat) :
  (forall s, a s = b s) -> forall pre, search a n pre = search b n pre.
Proof.
  intros Hab. induction n as [|n IH]; intros pre; cbn [search].
  - now rewrite Hab.
  - apply flat_map_ext. intros i. apply IH.
Qed.

Lemma same_gates_qualifies (g g' : globals) (s : list nat) :
  same_gates g g' ->
  qualifies g s = qualifies g' s /\
  qualifies_exactly g s = qualifies_exactly g' s.
Proof.
  destruct g, g'. unfold same_gates. cbn [var_I var_H var_X var_Y var_Z].
  intros (-> & -> & -> & -> & ->). split; reflexivity.
Qed.

Lemma same_gates_result (g g' : globals) :
  same_gates g g' -> result_of g = result_of g'.
Proof.
  intros Hsame. unfold result_of.
  rewrite !(search_ext (qualifies g) (qualifies g'))
    by (intros s; apply (same_gates_qualifies g g' s Hsame)).
  rewrite (search_ext (qualifies_exactly g) (qualifies_exactly g'))
    by (intros s; apply (same_gates_qualifies g g' s Hsame)).
  reflexivity.
Qed.

Lemma result_indices (g : globals) : Forall (Forall index) (result_of g).
Proof.
  apply Forall_forall. intros s Hs. rewrite in_result_of in Hs. apply Hs.
Qed.

Lemma result_lengths (g : globals) :
  Forall (fun s => 3 <= length s <= 8) (result_of g).
Proof.
  apply Forall_forall. intros s Hs.
  rewrite in_result_of in Hs. destruct Hs as (_ & [[? _] | [? _]]); lia.
Qed.

(** ** The properties of the search *)

(** C1, at the tuple (1,1,0): the product H.H.I rounds to the identity,
    entry by entry, and the tuple is one of the 125 the nest of length 3
    visits, yet the call does not return it: that nest compares the
    unrounded product, whose diagonal is 0.9999999999999998. *)
Theorem length3_nest_skips_round :
  exists r, check_identity module_globals = Some (r, module_globals) /\
    length [1; 1; 0] = 3 /\ Forall index [1; 1; 0] /\
    all_eq (round (ordered_product module_globals [1; 1; 0])) Gates.I = true /\
    all_eq (ordered_product module_globals [1; 1; 0]) Gates.I = false /\
    ~ In [1; 1; 0] r.
Proof.
  exists (result_of module_globals). split; [apply check_identity_run|].
  split; [reflexivity|]. split; [indices|].
  split; [vm_compute; reflexivity|]. split; [vm_compute; reflexivity|].
  not_member.
Qed.

(** C2, at the tuple (0,1,1): it is one of the 5^3 enumerated tuples of
    length 3 and its rounded product I.H.H is the identity, but it occurs
    zero times in the list the call returns. *)
Theorem qualifying_tuple_missing :
  exists r, check_identity module_globals = Some (r, module_globals) /\
    In [0; 1; 1] (tuples 3) /\
    qualifies module_globals [0; 1; 1] = true /\
    count_occ (list_eq_dec Nat.eq_dec) r [0; 1; 1] = 0.
Proof.
  exists (result_of module_globals). split; [apply check_identity_run|].
  split; [apply in_tuples; split; [reflexivity | indices]|].
  split; [vm_compute; reflexivity|].
  apply count_occ_not_In. not_member.
Qed.

Lemma dot_matrix_product (a b : ndarray) : dot a b = matrix_product a b.
Proof. destruct a, b. reflexivity. Qed.

Lemma gate_at_index (g : globals) (i : nat) :
  index i -> gate_at g i = Some (gate g i).
Proof.
  unfold index. intros Hi.
  do 5 (destruct i as [|i]; [reflexivity|]). lia.
Qed.

Lemma multiply_on_fold (g : globals) (s : list nat) :
  Forall index s ->
  forall acc,
    multiply_on g acc s
    = Some (fold_left (fun acc j => dot acc (gate g j)) s acc).
Proof.
  induction 1 as [|i s Hi Hs IH]; intros acc; cbn [multiply_on fold_left].
  - reflexivity.
  - rewrite (gate_at_index g i Hi), <- dot_matrix_product. apply IH.
Qed.

Lemma Product_ordered (g : globals) (s : list nat) :
  Forall index s -> s <> [] -> Product g s = Some (ordered_product g s).
Proof.
  intros Hall Hne. destruct s as [|i s']; [congruence|].
  inversion Hall as [|? ? Hi Hs']; subst.
  cbn [Product ordered_product]. rewrite (gate_at_index g i Hi).
  now apply multiply_on_fold.
Qed.

Lemma tested_product_run (g : globals) (s : list nat) :
  3 <= length s <= 8 -> Forall index s ->
  tested_product (gate_list g) s g = Some (ordered_product g s, g).
Proof.
  intros Hlen Hall.
  assert (forall x, index x -> In x (range 0 5)) as Hr
      by (unfold index; intros x Hx; rewrite in_range; lia).
  assert (forall t,
    Forall index t -> 3 <= length t <= 8 ->
    (exists i j k, t = [i; j; k]) \/ (exists i j k l, t = [i; j; k; l]) \/
    (exists i j k l m, t = [i; j; k; l; m]) \/
    (exists i j k l m n, t = [i; j; k; l; m; n]) \/
    (exists i j k l m n o, t = [i; j; k; l; m; n; o]) \/
    (exists i j k l m n o p, t = [i; j; k; l; m; n; o; p])) as Hshape.
  { intros t _ Ht.
    destruct t as [|i [|j [|k [|l [|m [|n [|o [|p [|q t]]]]]]]]];
      cbn [length] in Ht; try lia; eauto 15. }
  destruct (Hshape s Hall Hlen)
    as [(i & j & k & ->) | [(i & j & k & l & ->) |
       [(i & j & k & l & m & ->) | [(i & j & k & l & m & n & ->) |
       [(i & j & k & l & m & n & o & ->) |
        (i & j & k & l & m & n & o & p & ->)]]]]];
    repeat match goal with
           | H : Forall index (_ :: _) |- _ => inversion H; subst; clear H
           end;
    cbn [tested_product];
    first [ apply product3_run | apply product4_run | apply product5_run
          | apply product6_run | apply product7_run | apply product8_run ];
    apply Hr; assumption.
Qed.

(** C3: for every tuple s of 3 to 8 indices in 0..4, the expression its
    nest evaluates yields, without raising and without changing the
    namespace, the Product of s: gate[s0] . gate[s1] . ... . gate[sL-1]
    over the list [I, H, X, Y, Z], multiplied from the left by standard
    complex matrix multiplication (entry (i,j) the sum over k of
    a[i][k] b[k][j]); and the call returns s exactly when that Product,
    rounded unless s has 3 indices, equals [I] entry by entry. *)
Theorem search_tests_ordered_product (g : globals) (s : list nat) :
  3 <= length s <= 8 -> Forall index s ->
  exists r P,
    check_identity g = Some (r, g) /\
    Product g s = Some P /\
    tested_product [var_I g; var_H g; var_X g; var_Y g; var_Z g] s g
    = Some (P, g) /\
    (In s r <->
     all_eq (if length s =? 3 then P else round P) (var_I g) = true).
Proof.
  intros Hlen Hall. exists (result_of g), (ordered_product g s).
  split; [apply check_identity_run|].
  split; [apply Product_ordered; [assumption|];
          intros ->; cbn [length] in Hlen; lia|].
  split; [change [var_I g; var_H g; var_X g; var_Y g; var_Z g]
            with (gate_list g); now apply tested_product_run|].
  rewrite in_result_of. unfold qualifies, qualifies_exactly.
  destruct (Nat.eqb_spec (length s) 3) as [E|E]; split.
  - intros (_ & [[H4 _] | [_ Hq]]); [lia | exact Hq].
  - intros Hq. split; [assumption | right; now split].
  - intros (_ & [[_ Hq] | [H3 _]]); [exact Hq | lia].
  - intros Hq. split; [assumption | left; split; [lia | exact Hq]].
Qed.

Lemma search_tests_ordered_product_witness :
  (3 <= length [2; 3; 4] <= 8 /\ Forall index [2; 3; 4]) /\
  exists r P,
    check_identity module_globals = Some (r, module_globals) /\
    Product module_globals [2; 3; 4] = Some P /\
    tested_product [Gates.I; Gates.H; Gates.X; Gates.Y; Gates.Z] [2; 3; 4]
                   module_globals = Some (P, module_globals) /\
    all_eq P (Arr (Cx 0 1) (Cx 0 0) (Cx 0 0) (Cx 0 1)) = true /\
    ~ In [2; 3; 4] r.
Proof.
  assert (3 <= length [2; 3; 4] <= 8) as Hlen by (cbn [length]; lia).
  assert (Forall index [2; 3; 4]) as Hall by indices.
  split; [split; assumption|].
  destruct (search_tests_ordered_product module_globals [2; 3; 4] Hlen Hall)
    as (r & P & Hrun & HP & Htest & Hin).
  exists r, P. split; [exact Hrun|]. split; [exact HP|].
  split; [exact Htest|].
  assert (P = matrix_product (matrix_product Gates.X Gates.Y) Gates.Z) as ->
      by (cbn in HP; congruence).
  split; [vm_compute; reflexivity|].
  intros Hs. apply Hin in Hs. vm_compute in Hs. discriminate Hs.
Defined.

(** C4 as stated fails: the list the call returns is not ordered by
    ascending length; the all-zero tuple of length 8 stands before the
    all-zero tuple of length 3. *)
Theorem result_not_length_ascending :
  exists r, check_identity module_globals = Some (r, module_globals) /\
    ~ StronglySorted length_ascending r.
Proof.
  exists (result_of module_globals). split; [apply check_identity_run|].
  intros Hs.
  assert (In (repeat 0 3) (result_of module_globals)) as H3
      by (cbn [repeat]; member).
  unfold result_of in Hs, H3.
  assert (length_ascending (repeat 0 8) (repeat 0 3)) as [Hlt | [Heq _]].
  { eapply StronglySorted_app_cross; [exact Hs | | ].
    - rewrite in_search_nil. split; [reflexivity|]. split; [cbn; indices|].
      vm_compute; reflexivity.
    - rewrite !in_app_iff in H3. rewrite !in_app_iff.
      destruct H3 as [H3|H3]; [apply search_length in H3; discriminate|].
      exact H3. }
  - cbn in Hlt. lia.
  - discriminate.
Qed.

(** C4, amended: the tuples the call returns are ordered by descending
    length (the nest of length 8 runs first, that of length 3 last), and
    the tuples of one length are in lexicographic order. *)
Theorem result_length_descending :
  forall g, exists r, check_identity g = Some (r, g) /\
    StronglySorted length_descending r.
Proof.
  intros g. exists (result_of g).
  split; [apply check_identity_run | apply result_of_descending].
Qed.

(** C5: for every length L from 3 to 8, the tuple of L zeros (L copies of
    the Identity gate) is in the list the call returns. *)
Theorem all_zero_tuple_found (L : nat) :
  3 <= L <= 8 ->
  exists r, check_identity module_globals = Some (r, module_globals) /\
    In (repeat 0 L) r.
Proof.
  intros HL. exists (result_of module_globals).
  split; [apply check_identity_run|].
  assert (L = 3 \/ L = 4 \/ L = 5 \/ L = 6 \/ L = 7 \/ L = 8)
    as [-> | [-> | [-> | [-> | [-> | ->]]]]] by lia;
    cbn [repeat]; member.
Qed.

Lemma all_zero_tuple_found_witness :
  3 <= 5 <= 8 /\
  exists r, check_identity module_globals = Some (r, module_globals) /\
    In [0; 0; 0; 0; 0] r.
Proof.
  assert (3 <= 5 <= 8) as H by lia.
  split; [exact H | exact (all_zero_tuple_found 5 H)].
Defined.

(** C6: every tuple the call returns has between 3 and 8 indices, and
    both bounds are reached: the result holds a tuple of length 3 and a
    tuple of length 8. *)
Theorem result_lengths_3_to_8 :
  exists r, check_identity module_globals = Some (r, module_globals) /\
    Forall (fun s => 3 <= length s <= 8) r /\
    (forall s, In s r -> length s <> 2 /\ length s <> 9) /\
    (exists s, In s r /\ length s = 3) /\
    (exists s, In s r /\ length s = 8).
Proof.
  exists (result_of module_globals). split; [apply check_identity_run|].
  split; [apply result_lengths|]. split; [|split].
  - intros s Hs. pose proof (result_lengths module_globals) as Hall.
    rewrite Forall_forall in Hall. specialize (Hall s Hs). lia.
  - exists [0; 0; 0]. split; [member | reflexivity].
  - exists [0; 0; 0; 0; 0; 0; 0; 0]. split; [member | reflexivity].
Qed.

(** C7: two calls in a row, from any namespace, return the same list,
    tuple for tuple in the same order. *)
Theorem check_identity_deterministic :
  forall g, exists r, call_twice g = Some ((r, r), g).
Proof.
  intros g. exists (result_of g). unfold call_twice, bind.
  now rewrite !check_identity_run.
Qed.

(** C8: among the tuples of length 3 the call returns are (0,0,0),
    (2,2,0), (0,2,2) and (2,0,2); (2,2,2) is not returned. *)
Theorem pauli_x_triples :
  exists r, check_identity module_globals = Some (r, module_globals) /\
    In [0; 0; 0] r /\ In [2; 2; 0] r /\ In [0; 2; 2] r /\ In [2; 0; 2] r /\
    ~ In [2; 2; 2] r.
Proof.
  exists (result_of module_globals). split; [apply check_identity_run|].
  split; [member|]. split; [member|]. split; [member|]. split; [member|].
  not_member.
Qed.

(** C9: the call returns and leaves the module namespace as it found it;
    started from the namespace of the freshly loaded module, each of the
    seven matrices still has its initial value afterwards. *)
Theorem check_identity_no_side_effect :
  (forall g, exists r, check_identity g = Some (r, g)) /\
  (exists r g', check_identity module_globals = Some (r, g') /\
     var_I g' = Gates.I /\ var_rootX g' = Gates.rootX /\
     var_H g' = Gates.H /\ var_S g' = Gates.S /\ var_X g' = Gates.X /\
     var_Y g' = Gates.Y /\ var_Z g' = Gates.Z).
Proof.
  split.
  - intros g. exists (result_of g). apply check_identity_run.
  - exists (result_of module_globals), module_globals.
    split; [apply check_identity_run|]. repeat split.
Qed.

(** C10: the call depends on the five gates of [d] only: two namespaces
    that agree on I, H, X, Y and Z, whatever they bind [rootX] and [S] to,
    yield the same list, and every index in it is one of 0..4 and so
    denotes an element of [I, H, X, Y, Z]. *)
Theorem rootX_and_S_unused (g g' : globals) :
  same_gates g g' ->
  exists r, check_identity g = Some (r, g) /\
    check_identity g' = Some (r, g') /\
    Forall (Forall (fun i => index i /\
                             In (gate g i)
                                [var_I g; var_H g; var_X g; var_Y g; var_Z g]))
           r.
Proof.
  intros Hsame. exists (result_of g). split; [apply check_identity_run|].
  split; [rewrite (same_gates_result g g' Hsame); apply check_identity_run|].
  pose proof (result_indices g) as Hall.
  rewrite Forall_forall in *. intros s Hs. specialize (Hall s Hs).
  rewrite Forall_forall in *. intros i Hi. specialize (Hall i Hi).
  split; [assumption|]. unfold index in Hall.
  unfold gate, gate_list.
  do 5 (destruct i as [|i]; [cbn; tauto|]). lia.
Qed.

Lemma rootX_and_S_unused_witness :
  same_gates module_globals
    (Globals Gates.I Gates.Z Gates.H Gates.Y Gates.X Gates.Y Gates.Z) /\
  exists r,
    check_identity module_globals = Some (r, module_globals) /\
    check_identity
      (Globals Gates.I Gates.Z Gates.H Gates.Y Gates.X Gates.Y Gates.Z)
    = Some (r, Globals Gates.I Gates.Z Gates.H Gates.Y Gates.X Gates.Y Gates.Z).
Proof.
  assert (same_gates module_globals
            (Globals Gates.I Gates.Z Gates.H Gates.Y Gates.X Gates.Y Gates.Z))
    as Hsame by (repeat split).
  split; [exact Hsame|].
  destruct (rootX_and_S_unused _ _ Hsame) as (r & H1 & H2 & _).
  exists r. split; assumption.
Defined.

(** ** Further properties of the result *)

Lemma returned_iff (g : globals) (s : list nat) :
  In s (result_of g) <->
  Forall index s /\ 3 <= length s <= 8 /\ nest_test g s = true.
Proof.
  rewrite in_result_of. unfold nest_test.
  destruct (Nat.eqb_spec (length s) 3) as [E|E].
  - split.
    + intros (Hall & [[Hlen _] | [_ Hq]]); [lia | repeat split; auto; lia].
    + intros (Hall & _ & Hq). split; [assumption | right; now split].
  - split.
    + intros (Hall & [[Hlen Hq] | [Hlen _]]); [repeat split; auto; lia | lia].
    + intros (Hall & Hlen & Hq). split; [assumption | left; split; [lia | auto]].
Qed.

(** One evaluation of the whole search, with the check applied to each
    of the tuples it returns. *)
Lemma closure_eval :
  forallb (closure_check module_globals) (result_of module_globals) = true.
Proof. vm_cast_no_check (eq_refl true). Qed.

Lemma closure_facts (s : list nat) :
  In s (result_of module_globals) ->
  Nat.even (hadamards s) = true /\
  nest_test module_globals (rev s) = true /\
  nest_test module_globals (rotate s) = true /\
  (length s < 8 ->
   nest_test module_globals (s ++ [0]) = true /\
   nest_test module_globals (0 :: s) = true).
Proof.
  intros Hs. pose proof closure_eval as Hall.
  rewrite forallb_forall in Hall. specialize (Hall s Hs).
  unfold closure_check in Hall. rewrite !andb_true_iff in Hall.
  destruct Hall as (((Hh & Hrev) & Hrot) & Hpad). clear Hs.
  split; [exact Hh|]. split; [exact Hrev|]. split; [exact Hrot|].
  intros Hlt. apply Nat.ltb_lt in Hlt. rewrite Hlt in Hpad.
  apply andb_true_iff in Hpad. exact Hpad.
Qed.

Lemma counts_eval :
  length_counts (result_of module_globals)
  = ([10; 57; 201; 893; 3669; 16913]%N, 21743%N).
Proof.
  vm_cast_no_check
    (eq_refl ([10; 57; 201; 893; 3669; 16913]%N, 21743%N)).
Qed.

Lemma counts_split (a3 a4 a5 a6 a7 a8 t b3 b4 b5 b6 b7 b8 u : N) :
  ([a3; a4; a5; a6; a7; a8], t) = ([b3; b4; b5; b6; b7; b8], u) ->
  a3 = b3 /\ a4 = b4 /\ a5 = b5 /\ a6 = b6 /\ a7 = b7 /\ a8 = b8 /\ t = u.
Proof. intros H. injection H as -> -> -> -> -> -> ->. repeat split. Qed.

Lemma count_length_spec (L : nat) (r : list (list nat)) :
  count_length L r
  = N.of_nat (length (filter (fun s => length s =? L) r)).
Proof.
  unfold count_length.
  enough (forall c,
    fold_left (fun c s => if length s =? L then N.succ c else c) r c
    = N.add c (N.of_nat (length (filter (fun s => length s =? L) r)))) as H
    by (rewrite H; reflexivity).
  induction r as [|s r IH]; intros c; cbn [fold_left filter].
  - cbn. lia.
  - rewrite IH. destruct (length s =? L); cbn [length]; lia.
Qed.

Lemma count_all_spec (r : list (list nat)) :
  count_all r = N.of_nat (length r).
Proof.
  unfold count_all.
  enough (forall c,
    fold_left (fun c _ => N.succ c) r c = N.add c (N.of_nat (length r))) as H
    by (rewrite H; reflexivity).
  induction r as [|s r IH]; intros c; cbn [fold_left length].
  - lia.
  - rewrite IH. lia.
Qed.

Lemma needs_round_eval :
  filter (needs_round module_globals) (tuples 3)
  = [[0; 1; 1]; [1; 0; 1]; [1; 1; 0]].
Proof. vm_compute. reflexivity. Qed.

Lemma nest3_eval :
  search (qualifies_exactly module_globals) 3 []
  = [[0; 0; 0]; [0; 2; 2]; [0; 3; 3]; [0; 4; 4]; [2; 0; 2]; [2; 2; 0];
     [3; 0; 3]; [3; 3; 0]; [4; 0; 4]; [4; 4; 0]].
Proof. vm_compute. reflexivity. Qed.

(** X1: what the call returns, exactly.  A tuple is in the returned list if
    and only if all its indices are in 0..4 and either it has 4 to 8
    indices and its ordered product, rounded, equals [I] entry by entry,
    or it has 3 indices and its ordered product equals [I] as computed. *)
Theorem returned_exactly :
  forall (g : globals) (s : list nat),
  exists r, check_identity g = Some (r, g) /\
    (In s r <->
     Forall index s /\
     ((4 <= length s <= 8 /\
       all_eq (round (ordered_product g s)) (var_I g) = true) \/
      (length s = 3 /\ all_eq (ordered_product g s) (var_I g) = true))).
Proof.
  intros g s. exists (result_of g). split; [apply check_identity_run|].
  pose proof (in_result_of g s) as H.
  unfold qualifies, qualifies_exactly in H. exact H.
Qed.

(** X2: whatever the namespace binds the gates to, no tuple occurs twice
    in the returned list. *)
Theorem no_tuple_twice :
  forall g, exists r, check_identity g = Some (r, g) /\ NoDup r.
Proof.
  intros g. exists (result_of g).
  split; [apply check_identity_run | apply result_of_NoDup].
Qed.

(** X3: the unrounded comparison of the nest of length 3 loses exactly
    three tuples: a tuple of three indices in 0..4 rounds to the identity
    and is not returned if and only if it is (0,1,1), (1,0,1) or (1,1,0),
    the three placements of a pair of Hadamard gates. *)
Theorem missing_round_extent (s : list nat) :
  length s = 3 -> Forall index s ->
  exists r, check_identity module_globals = Some (r, module_globals) /\
    ((qualifies module_globals s = true /\ ~ In s r) <->
     In s [[0; 1; 1]; [1; 0; 1]; [1; 1; 0]]).
Proof.
  intros Hlen Hall. exists (result_of module_globals).
  split; [apply check_identity_run|].
  rewrite <- needs_round_eval, filter_In, in_tuples.
  rewrite (compare_unrounded_3 module_globals s Hlen Hall).
  unfold needs_round. rewrite andb_true_iff, negb_true_iff.
  destruct (qualifies_exactly module_globals s); split.
  - intros [_ Hn]. now contradiction Hn.
  - intros [_ [_ Hf]]. discriminate Hf.
  - intros [Hq _]. repeat split; assumption.
  - intros [_ [Hq _]]. split; [assumption | discriminate].
Qed.

Lemma missing_round_extent_witness :
  (length [1; 0; 1] = 3 /\ Forall index [1; 0; 1]) /\
  exists r, check_identity module_globals = Some (r, module_globals) /\
    ((qualifies module_globals [1; 0; 1] = true /\ ~ In [1; 0; 1] r) <->
     In [1; 0; 1] [[0; 1; 1]; [1; 0; 1]; [1; 1; 0]]).
Proof.
  assert (Forall index [1; 0; 1]) as Hall by indices.
  split; [split; [reflexivity | exact Hall]|].
  exact (missing_round_extent [1; 0; 1] eq_refl Hall).
Defined.

(** X4: the size of the result.  The call returns 21743 tuples: 16913 of
    length 8, 3669 of length 7, 893 of length 6, 201 of length 5, 57 of
    length 4 and 10 of length 3. *)
Theorem result_counts :
  exists r, check_identity module_globals = Some (r, module_globals) /\
    N.of_nat (length (filter (fun s => length s =? 3) r)) = 10%N /\
    N.of_nat (length (filter (fun s => length s =? 4) r)) = 57%N /\
    N.of_nat (length (filter (fun s => length s =? 5) r)) = 201%N /\
    N.of_nat (length (filter (fun s => length s =? 6) r)) = 893%N /\
    N.of_nat (length (filter (fun s => length s =? 7) r)) = 3669%N /\
    N.of_nat (length (filter (fun s => length s =? 8) r)) = 16913%N /\
    N.of_nat (length r) = 21743%N.
Proof.
  exists (result_of module_globals). split; [apply check_identity_run|].
  pose proof counts_eval as H. unfold length_counts in H. cbn [map] in H.
  apply counts_split in H. destruct H as (H3 & H4 & H5 & H6 & H7 & H8 & Hall).
  rewrite count_length_spec in H3, H4, H5, H6, H7, H8.
  rewrite count_all_spec in Hall.
  split; [exact H3|]. split; [exact H4|]. split; [exact H5|].
  split; [exact H6|]. split; [exact H7|]. split; [exact H8|]. exact Hall.
Qed.

(** X5: the Hadamard gate occurs an even number of times in every tuple
    the call returns. *)
Theorem hadamard_even :
  exists r, check_identity module_globals = Some (r, module_globals) /\
    forall s, In s r -> Nat.even (count_occ Nat.eq_dec s 1) = true.
Proof.
  exists (result_of module_globals). split; [apply check_identity_run|].
  intros s Hs. exact (proj1 (closure_facts s Hs)).
Qed.

(** X6: the result is closed under reversal: with a tuple, the call also
    returns the tuple read backwards. *)
Theorem reversal_returned :
  exists r, check_identity module_globals = Some (r, module_globals) /\
    forall s, In s r -> In (rev s) r.
Proof.
  exists (result_of module_globals). split; [apply check_identity_run|].
  intros s Hs. destruct (closure_facts s Hs) as (_ & Hrev & _).
  rewrite returned_iff in Hs. rewrite returned_iff.
  destruct Hs as (Hall & Hlen & _).
  split; [apply Forall_rev; exact Hall|].
  rewrite length_rev. split; assumption.
Qed.

(** X7: the result is closed under rotation: with a tuple, the call also
    returns the tuple whose first index has moved to the end. *)
Theorem rotation_returned :
  exists r, check_identity module_globals = Some (r, module_globals) /\
    forall s, In s r -> In (rotate s) r.
Proof.
  exists (result_of module_globals). split; [apply check_identity_run|].
  intros s Hs. destruct (closure_facts s Hs) as (_ & _ & Hrot & _).
  rewrite returned_iff in Hs. rewrite returned_iff.
  destruct Hs as (Hall & Hlen & _).
  destruct s as [|i s']; [cbn in Hlen; lia|].
  cbn [rotate] in *. inversion Hall as [|? ? Hi Hs']; subst.
  split; [apply Forall_app; split; [assumption | now constructor]|].
  rewrite length_app. cbn [length] in *. split; [lia | assumption].
Qed.

(** X8: a returned tuple of fewer than 8 indices stays in the result
    when the Identity gate (index 0) is put after it or before it. *)
Theorem identity_padding_returned :
  exists r, check_identity module_globals = Some (r, module_globals) /\
    forall s, In s r -> length s < 8 -> In (s ++ [0]) r /\ In (0 :: s) r.
Proof.
  exists (result_of module_globals). split; [apply check_identity_run|].
  intros s Hs Hlt. destruct (closure_facts s Hs) as (_ & _ & _ & Hpad).
  destruct (Hpad Hlt) as [Hafter Hbefore].
  rewrite returned_iff in Hs. rewrite !returned_iff.
  destruct Hs as (Hall & Hlen & _).
  assert (index 0) as H0 by (unfold index; lia).
  split; (split; [|split; [|assumption]]).
  - apply Forall_app. split; [assumption | now constructor].
  - rewrite length_app. cbn [length]. lia.
  - now constructor.
  - cbn [length]. lia.
Qed.

(** X9: the tuples of length 3 the call returns are the all-zero tuple
    and, for each Pauli gate a in 2..4, the three placements of the pair
    (a,a) around one Identity gate; no tuple of length 3 that holds a
    Hadamard gate is returned. *)
Theorem length3_result (s : list nat) :
  length s = 3 ->
  exists r, check_identity module_globals = Some (r, module_globals) /\
    (In s r <->
     In s [[0; 0; 0]; [0; 2; 2]; [0; 3; 3]; [0; 4; 4]; [2; 0; 2]; [2; 2; 0];
           [3; 0; 3]; [3; 3; 0]; [4; 0; 4]; [4; 4; 0]]).
Proof.
  intros Hlen. exists (result_of module_globals).
  split; [apply check_identity_run|].
  rewrite <- nest3_eval, in_result_of, in_search_nil. split.
  - intros (Hall & [[H4 _] | [_ Hq]]); [lia | repeat split; assumption].
  - intros (_ & Hall & Hq). split; [assumption | right; now split].
Qed.

Lemma length3_result_witness :
  length [3; 3; 0] = 3 /\
  exists r, check_identity module_globals = Some (r, module_globals) /\
    (In [3; 3; 0] r <->
     In [3; 3; 0]
        [[0; 0; 0]; [0; 2; 2]; [0; 3; 3]; [0; 4; 4]; [2; 0; 2]; [2; 2; 0];
         [3; 0; 3]; [3; 3; 0]; [4; 0; 4]; [4; 4; 0]]).
Proof.
  split; [reflexivity | exact (length3_result [3; 3; 0] eq_refl)].
Defined.
